(** * VidSquad front end: the job submission / polling orchestrator of [App.tsx]

    A shallow embedding of [frontend/src/app/App.tsx].  The component keeps
    three pieces of React state ([currentScreen], [jobData], [error]); the
    browser keeps the repeating timers created by [setInterval] and the
    promises of the two remote calls ([generateVideo], [checkStatus]) that
    have been issued and not settled yet.  The handlers are asynchronous:
    each one is split at its [await] into the part that runs when the handler
    is called and the part that runs when the promise settles, and the event
    loop interleaves them. *)

From Stdlib Require Import ZArith.
From stdpp Require Import gmap strings list.


(** ** Data model *)

(** [type Screen = 'input' | 'progress' | 'download'] *)
Inductive Screen := Input | Progress | Download.

#[global] Instance Screen_eq_dec : EqDecision Screen.
Proof. solve_decision. Defined.

(** The [result] member of [JobData]. *)
Record ResultBundle := mkResult {
  premiere_url : string;
  capcut_url : string;
  clips_count : Z;
  images_count : Z;
  expires_at : string
}.

(** [interface JobData]; a member declared with [?] is an [option]. *)
Module JobData.
Record t := mk {
  jobId : string;
  status : string;
  progress : Z;
  currentStep : option string;
  etaSeconds : option Z;
  error : option string;
  result : option ResultBundle
}.
End JobData.

(** What [checkStatus] resolves to, with the members the poll tick reads. *)
Module Status.
Record t := mk {
  status : string;
  progress : Z;
  current_step : option string;
  eta_seconds : option Z;
  error : option string;
  result : option ResultBundle
}.
End Status.

(** How an awaited promise settles.  It resolves to a value; or it rejects
    with an [err] on which [err.message] can be read, [message] being what
    is read ([None] for [undefined]); or it rejects with [null] or
    [undefined], on which reading [.message] throws. *)
Inductive Outcome (A : Type) :=
  | Resolved (a : A)
  | Rejected (message : option string)
  | RejectedNullish.
Arguments Resolved {A} a.
Arguments Rejected {A} message.
Arguments RejectedNullish {A}.

(** The [err] a [catch] clause binds: [null] or [undefined], or a value with
    what [err.message] reads on it. *)
Inductive Caught :=
  | Nullish
  | Thrown (message : option string).

(** ** JavaScript's [||] on the operand types used in the file *)

(** [x || d] for a string operand: [undefined] and the empty string are
    falsy. *)
Definition or_string (x : option string) (d : string) : string :=
  match x with
  | Some s => if decide (s = "") then d else s
  | None => d
  end.

(** [x || d] for an (integer) number operand: [undefined] and [0] are falsy. *)
Definition or_number (x : option Z) (d : Z) : Z :=
  match x with
  | Some n => if decide (n = 0%Z) then d else n
  | None => d
  end.

(** ** The duration lookup (lines 65-72) *)

(** The own properties of the object literal [durationMap]. *)
Definition durationMap : gmap string Z :=
  <["6-9" := 450%Z]> (<["10-12" := 660%Z]> (<["18-20" := 1140%Z]>
    (<["30-40" := 2100%Z]> ∅))).

(** [durationMap] is an ordinary object literal, so its prototype is
    [Object.prototype]: reading a property that is not an own property
    continues there.  These are the string-named members of
    [Object.prototype]; each is a function, or for [__proto__] the prototype
    object itself, hence truthy and not a number. *)
Definition object_prototype_keys : list string :=
  [ "constructor"; "hasOwnProperty"; "isPrototypeOf"; "propertyIsEnumerable";
    "toLocaleString"; "toString"; "valueOf"; "__proto__";
    "__defineGetter__"; "__defineSetter__"; "__lookupGetter__";
    "__lookupSetter__" ].

(** The value bound to [durationSeconds]: a number of seconds from the table
    (or the fallback), or the member of [Object.prototype] found under the
    label. *)
Inductive DurationValue :=
  | Seconds (n : Z)
  | Inherited (key : string).

(** [durationMap[duration]]: [None] is [undefined]. *)
Definition durationMap_get (duration : string) : option DurationValue :=
  match durationMap !! duration with
  | Some n => Some (Seconds n)
  | None =>
      if decide (duration ∈ object_prototype_keys)
      then Some (Inherited duration) else None
  end.

(** [const durationSeconds = durationMap[duration] || 2100;] *)
Definition durationSeconds (duration : string) : DurationValue :=
  match durationMap_get duration with
  | Some (Seconds n) => if decide (n = 0%Z) then Seconds 2100 else Seconds n
  | Some (Inherited k) => Inherited k
  | None => Seconds 2100
  end.

(** ** State *)

(** The arguments of one [generateVideo] call. *)
Record SubmitRequest := mkRequest {
  req_script : string;
  req_durationSeconds : DurationValue;
  req_title : string
}.

(** A repeating timer made by [setInterval(callback, 2000)]: the [job_id]
    its callback closes over, and its period in milliseconds. *)
Record Interval := mkInterval {
  bound_job_id : string;
  delay : Z
}.

(** The component state ([useState] cells [currentScreen], [jobData],
    [error]) and the browser state around it: the live timers by handle, the
    next handle [setInterval] gives out, the [generateVideo] calls awaiting
    their response, and the [checkStatus] calls awaiting theirs (each with
    the handle and [job_id] its continuation closes over). *)
Record World := mkWorld {
  currentScreen : Screen;
  jobData : option JobData.t;
  error : string;
  intervals : gmap nat Interval;
  nextHandle : nat;
  pendingSubmits : list SubmitRequest;
  pendingFetches : list (nat * string)
}.

(** [useState('input')], [useState(null)], [useState('')]; nothing issued. *)
Definition initial : World :=
  mkWorld Input None "" ∅ 0 [] [].

Definition setCurrentScreen (s : Screen) (w : World) : World :=
  mkWorld s (jobData w) (error w) (intervals w) (nextHandle w)
          (pendingSubmits w) (pendingFetches w).

Definition setJobData (j : option JobData.t) (w : World) : World :=
  mkWorld (currentScreen w) j (error w) (intervals w) (nextHandle w)
          (pendingSubmits w) (pendingFetches w).

Definition setError (e : string) (w : World) : World :=
  mkWorld (currentScreen w) (jobData w) e (intervals w) (nextHandle w)
          (pendingSubmits w) (pendingFetches w).

(** [setInterval(callback, ms)] with a callback bound to [job_id]: a new
    timer under a handle never given out before. *)
Definition setInterval (job_id : string) (ms : Z) (w : World) : World :=
  mkWorld (currentScreen w) (jobData w) (error w)
          (<[nextHandle w := mkInterval job_id ms]> (intervals w))
          (S (nextHandle w)) (pendingSubmits w) (pendingFetches w).

(** [clearInterval(h)]; clearing a handle that is not live does nothing. *)
Definition clearInterval (h : nat) (w : World) : World :=
  mkWorld (currentScreen w) (jobData w) (error w) (delete h (intervals w))
          (nextHandle w) (pendingSubmits w) (pendingFetches w).

Definition with_pendingSubmits (l : list SubmitRequest) (w : World) : World :=
  mkWorld (currentScreen w) (jobData w) (error w) (intervals w) (nextHandle w)
          l (pendingFetches w).

Definition with_pendingFetches (l : list (nat * string)) (w : World) : World :=
  mkWorld (currentScreen w) (jobData w) (error w) (intervals w) (nextHandle w)
          (pendingSubmits w) l.

(** ** [handleInputSubmit] (lines 60-124) *)

(** Lines 62-75, up to the [await]: the error is cleared, the duration is
    looked up and [generateVideo] is called. *)
Definition handleInputSubmit_call (script duration title : string) (w : World)
  : World :=
  let w := setError "" w in
  let request :=
    mkRequest script (durationSeconds duration)
              (or_string (Some title) "Untitled Video") in
  with_pendingSubmits (pendingSubmits w ++ [request]) w.

(** Lines 78-115, after [generateVideo] resolved to [{ job_id }]. *)
Definition handleInputSubmit_then (job_id : string) (w : World) : World :=
  let w :=
    setJobData
      (Some (JobData.mk job_id "queued" 0 (Some "Starting...") None None None))
      w in
  let w := setCurrentScreen Progress w in
  setInterval job_id 2000 w.

(** Lines 120-123, the [catch] of the outer [try].  The error is logged;
    then [err.message] is read.  On [null] or [undefined] that read throws,
    inside the [catch], so [setError] is not reached and the promise of
    [handleInputSubmit] rejects, which nobody observes (line 143). *)
Definition handleInputSubmit_catch (err : Caught) (w : World) : World :=
  match err with
  | Nullish => w
  | Thrown message =>
      setError (or_string message "Failed to start video generation") w
  end.

(** ** The poll tick, the callback of [setInterval] (lines 89-115) *)

(** Line 91, up to the [await]: the timer [h] fires and its callback calls
    [checkStatus(result.job_id)].  A cleared timer does not fire. *)
Definition poll_call (h : nat) (w : World) : World :=
  match intervals w !! h with
  | Some t => with_pendingFetches (pendingFetches w ++ [(h, bound_job_id t)]) w
  | None => w
  end.

(** Lines 93-110, after [checkStatus] resolved to [status]; [h] is the
    callback's [pollInterval] and [job_id] its [result.job_id]. *)
Definition poll_then (h : nat) (job_id : string) (status : Status.t)
    (w : World) : World :=
  let w :=
    setJobData
      (Some (JobData.mk job_id (Status.status status) (Status.progress status)
               (Status.current_step status) (Status.eta_seconds status)
               (Status.error status) (Status.result status)))
      w in
  if decide (Status.status status = "completed") then
    setCurrentScreen Download (clearInterval h w)
  else if decide (Status.status status = "failed") then
    setError (or_string (Status.error status) "Video generation failed")
             (clearInterval h w)
  else w.

(** Lines 111-114, the [catch] of the tick: the error is logged, nothing
    else. *)
Definition poll_catch (w : World) : World := w.

(** ** [handleCreateNew] (lines 127-131) *)
Definition handleCreateNew (w : World) : World :=
  setCurrentScreen Input (setError "" (setJobData None w)).

(** ** Rendering (lines 133-169) *)

Record ProgressProps := mkProgressProps {
  pp_progress : Z;
  pp_currentStep : string;
  pp_etaSeconds : Z;
  pp_error : string
}.

Record DownloadProps := mkDownloadProps {
  dp_jobId : string;
  dp_premiereUrl : string;
  dp_capcutUrl : string;
  dp_clipsCount : Z;
  dp_imagesCount : Z;
  dp_expiresAt : string
}.

Inductive View :=
  | InputScreen
  | ProgressScreen (props : ProgressProps)
  | DownloadScreen (props : DownloadProps).

(** The children of the fragment the component returns, in order; a
    conditional whose guard is falsy contributes nothing. *)
Definition render (w : World) : list View :=
  (if decide (currentScreen w = Input) then [InputScreen] else [])
  ++ (if decide (currentScreen w = Progress) then
        match jobData w with
        | Some j =>
            [ProgressScreen
               (mkProgressProps (JobData.progress j)
                  (or_string (JobData.currentStep j) "Processing...")
                  (or_number (JobData.etaSeconds j) 0)
                  (error w))]
        | None => []
        end
      else [])
  ++ (if decide (currentScreen w = Download) then
        match jobData w with
        | Some j =>
            match JobData.result j with
            | Some r =>
                [DownloadScreen
                   (mkDownloadProps (JobData.jobId j) (premiere_url r)
                      (capcut_url r) (clips_count r) (images_count r)
                      (expires_at r))]
            | None => []
            end
        | None => []
        end
      else []).

(** ** The event loop *)

(** [InputScreen] is on screen: the user can submit. *)
Definition input_shown (w : World) : bool :=
  existsb (λ v, match v with InputScreen => true | _ => false end) (render w).

(** [DownloadScreen] is on screen: the user can press its "create new"
    button, which is wired to [handleCreateNew]. *)
Definition download_shown (w : World) : bool :=
  existsb (λ v, match v with DownloadScreen _ => true | _ => false end)
          (render w).

(** What can happen next:
    - the user submits the form ([InputScreen]'s [onSubmit]);
    - the [i]-th outstanding [generateVideo] call settles;
    - the live timer [h] fires;
    - the [i]-th outstanding [checkStatus] call settles;
    - the user presses "create new" on [DownloadScreen]. *)
Inductive Event :=
  | Submit (script duration title : string)
  | SubmitSettles (i : nat) (r : Outcome string)
  | TimerFires (h : nat)
  | FetchSettles (i : nat) (r : Outcome Status.t)
  | CreateNew.

(** One turn of the event loop; [None] when the event cannot happen in [w]. *)
Definition step (w : World) (e : Event) : option World :=
  match e with
  | Submit script duration title =>
      if input_shown w
      then Some (handleInputSubmit_call script duration title w)
      else None
  | SubmitSettles i r =>
      match pendingSubmits w !! i with
      | Some _ =>
          let w := with_pendingSubmits (delete i (pendingSubmits w)) w in
          Some match r with
               | Resolved job_id => handleInputSubmit_then job_id w
               | Rejected message => handleInputSubmit_catch (Thrown message) w
               | RejectedNullish => handleInputSubmit_catch Nullish w
               end
      | None => None
      end
  | TimerFires h =>
      match intervals w !! h with
      | Some _ => Some (poll_call h w)
      | None => None
      end
  | FetchSettles i r =>
      match pendingFetches w !! i with
      | Some (h, job_id) =>
          let w := with_pendingFetches (delete i (pendingFetches w)) w in
          Some match r with
               | Resolved status => poll_then h job_id status w
               | Rejected _ | RejectedNullish => poll_catch w
               end
      | None => None
      end
  | CreateNew =>
      if download_shown w then Some (handleCreateNew w) else None
  end.

Fixpoint run (w : World) (events : list Event) : option World :=
  match events with
  | [] => Some w
  | e :: events =>
      match step w e with
      | Some w' => run w' events
      | None => None
      end
  end.

(** The states the application can be in. *)
Definition reachable (w : World) : Prop :=
  ∃ events, run initial events = Some w.

(** One whole poll tick of timer [h]: it fires, and its [checkStatus] call
    settles with [r] before anything else happens.  [None] when [h] is not
    live, so that no tick takes place. *)
Definition tick (h : nat) (r : Outcome Status.t) (w : World) : option World :=
  match step w (TimerFires h) with
  | Some w' => step w' (FetchSettles (List.length (pendingFetches w)) r)
  | None => None
  end.

(** A poll sequence of timer [h]: one tick per response, in order. *)
Fixpoint ticks (h : nat) (rs : list (Outcome Status.t)) (w : World)
  : option World :=
  match rs with
  | [] => Some w
  | r :: rs =>
      match tick h r w with
      | Some w' => ticks h rs w'
      | None => None
      end
  end.

(** The record a poll response is turned into (lines 93-101). *)
Definition record_of (job_id : string) (status : Status.t) : JobData.t :=
  JobData.mk job_id (Status.status status) (Status.progress status)
    (Status.current_step status) (Status.eta_seconds status)
    (Status.error status) (Status.result status).

(** ** Invariants of the event loop, and sample states *)

(** [sessions_from n w]: every live timer and every outstanding fetch of [w]
    belongs to a timer whose handle is [n] or later. *)
Definition sessions_from (n : nat) (w : World) : Prop :=
  n ≤ nextHandle w
  ∧ (∀ h t, intervals w !! h = Some t → n ≤ h)
  ∧ Forall (λ f : nat * string, n ≤ f.1) (pendingFetches w).

(** The timer a poll event belongs to: the one that fires, or the one whose
    outstanding fetch settles. *)
Definition timer_of (w : World) (e : Event) : option nat :=
  match e with
  | TimerFires h => Some h
  | FetchSettles i _ => fst <$> pendingFetches w !! i
  | _ => None
  end.

(** The handle of every live timer and of every outstanding fetch has been
    given out by [setInterval]; this holds in every reachable state. *)
Definition handles_issued (w : World) : Prop :=
  (∀ h t, intervals w !! h = Some t → h < nextHandle w)
  ∧ Forall (λ f : nat * string, f.1 < nextHandle w) (pendingFetches w).




(** A poll response that ends nothing: its status is neither ['completed']
    nor ['failed'], or the fetch rejected. *)
Definition keeps_polling (r : Outcome Status.t) : Prop :=
  match r with
  | Resolved status =>
      Status.status status ≠ "completed" ∧ Status.status status ≠ "failed"
  | Rejected _ | RejectedNullish => True
  end.

(** A result as [checkStatus] delivers it with a ['completed'] status. *)
Definition sample_result : ResultBundle :=
  mkResult "https://cdn/premiere.zip" "https://cdn/capcut.zip" 12 4
           "2026-01-01T00:00:00Z".

(** A state in which a session has run to completion: its record carries a
    result, the download screen is current, its timer is cleared and nothing
    is outstanding. *)
Definition completed_world : World :=
  mkWorld Download
    (Some (JobData.mk "job-1" "completed" 100 (Some "Done") (Some 0%Z) None
             (Some sample_result)))
    "" ∅ 1 [] [].

(** A session after one tick has fired and its fetch is outstanding. *)
Definition polling_events : list Event :=
  [Submit "a script" "6-9" "My video";
   SubmitSettles 0 (Resolved "job-1");
   TimerFires 0].

(** The state [polling_events] lead to. *)
Definition polling_world : World :=
  mkWorld Progress
    (Some (JobData.mk "job-1" "queued" 0 (Some "Starting...") None None None))
    "" {[0 := mkInterval "job-1" 2000]} 1 [] [(0, "job-1")].

(** A status that ends the polling of its timer (lines 104 and 107). *)
Definition terminal (status : Status.t) : Prop :=
  Status.status status = "completed" ∨ Status.status status = "failed".

(** Nothing is going on: no timer is live and no remote call is
    outstanding. *)
Definition quiescent (w : World) : Prop :=
  intervals w = ∅ ∧ pendingFetches w = [] ∧ pendingSubmits w = [].

(** Without a record the input screen is current. *)
Definition record_or_input (w : World) : Prop :=
  jobData w = None → currentScreen w = Input.

(** Every live timer has the period given at line 115. *)
Definition period_2000 (w : World) : Prop :=
  ∀ h t, intervals w !! h = Some t → delay t = 2000%Z.

(** The props of the progress view for record [j] and error [e]
    (lines 149-154). *)
Definition progress_props (j : JobData.t) (e : string) : ProgressProps :=
  mkProgressProps (JobData.progress j)
    (or_string (JobData.currentStep j) "Processing...")
    (or_number (JobData.etaSeconds j) 0) e.

(** What [generateVideo] can be called with: a title that is not empty, and
    as duration one of the four numbers of the table or a member of
    [Object.prototype]. *)
Definition well_formed_request (request : SubmitRequest) : Prop :=
  req_title request ≠ ""
  ∧ (req_durationSeconds request
       ∈ [Seconds 450; Seconds 660; Seconds 1140; Seconds 2100]
     ∨ ∃ key, key ∈ object_prototype_keys
              ∧ req_durationSeconds request = Inherited key).

(** The events that put a message into the error: a [generateVideo] call
    rejecting with a readable [err], and a [checkStatus] response with
    ['failed']. *)
Definition sets_error (e : Event) : bool :=
  match e with
  | SubmitSettles _ (Rejected _) => true
  | FetchSettles _ (Resolved status) =>
      bool_decide (Status.status status = "failed")
  | _ => false
  end.

(** No event of the list puts a message into the error. *)
Definition error_free (events : list Event) : bool :=
  forallb (λ e, negb (sets_error e)) events.




(** ** Basic facts *)

Lemma delete_last_app {A} (l : list A) (x : A) :
  delete (List.length l) (l ++ [x]) = l.
Proof.
  induction l as [|a l IH]; simpl; [done|]. by rewrite IH.
Qed.

Lemma lookup_last_app {A} (l : list A) (x : A) :
  (l ++ [x]) !! List.length l = Some x.
Proof.
  rewrite lookup_app_r by lia. by rewrite Nat.sub_diag.
Qed.

Lemma world_eta (w : World) :
  mkWorld (currentScreen w) (jobData w) (error w) (intervals w) (nextHandle w)
          (pendingSubmits w) (pendingFetches w) = w.
Proof. by destruct w. Qed.

(** An atomic tick of a live timer is the continuation applied to the state
    the tick started from. *)
Lemma tick_live h r w t :
  intervals w !! h = Some t →
  tick h r w =
    Some match r with
         | Resolved status => poll_then h (bound_job_id t) status w
         | Rejected _ | RejectedNullish => poll_catch w
         end.
Proof.
  intros Hlive. unfold tick, step, poll_call. rewrite Hlive. simpl.
  rewrite lookup_last_app. unfold with_pendingFetches; simpl.
  rewrite delete_last_app.
  destruct r; unfold poll_catch; by rewrite ?world_eta.
Qed.

Lemma tick_cancelled h r w :
  intervals w !! h = None → tick h r w = None.
Proof. intros Hdead. unfold tick, step. by rewrite Hdead. Qed.

Lemma poll_then_jobData h job_id status w :
  jobData (poll_then h job_id status w) = Some (record_of job_id status).
Proof. unfold poll_then. by repeat case_decide. Qed.

(** ** The duration lookup *)

Lemma durationMap_other (label : string) :
  label ≠ "6-9" → label ≠ "10-12" → label ≠ "18-20" → label ≠ "30-40" →
  durationMap !! label = None.
Proof.
  intros H1 H2 H3 H4. unfold durationMap.
  rewrite !lookup_insert_ne by done. apply lookup_empty.
Qed.

(** The four labels of the table resolve to their entries, and a label that
    is neither in the table nor the name of a member of [Object.prototype]
    resolves to 2100. *)
Lemma durationSeconds_table :
  durationSeconds "6-9" = Seconds 450
  ∧ durationSeconds "10-12" = Seconds 660
  ∧ durationSeconds "18-20" = Seconds 1140
  ∧ durationSeconds "30-40" = Seconds 2100
  ∧ ∀ label : string,
      label ≠ "6-9" → label ≠ "10-12" → label ≠ "18-20" → label ≠ "30-40" →
      label ∉ object_prototype_keys →
      durationSeconds label = Seconds 2100.
Proof.
  repeat split; try by vm_compute.
  intros label H1 H2 H3 H4 Hproto.
  unfold durationSeconds, durationMap_get.
  rewrite durationMap_other by done. by rewrite decide_False.
Qed.

(** A label that names a member of [Object.prototype] resolves to that
    member, whatever the table holds. *)
Lemma durationSeconds_inherited (label : string) :
  label ∈ object_prototype_keys → durationSeconds label = Inherited label.
Proof.
  intros Hin. unfold durationSeconds, durationMap_get.
  rewrite durationMap_other; [by rewrite decide_True | ..];
    intros ->; revert Hin; apply (bool_decide_unpack _); by vm_compute.
Qed.

(** C8, at the label ["constructor"]: the lookup finds
    [Object.prototype.constructor], which is truthy, so [durationSeconds] is
    that function and not the fallback 2100 (nor any number). *)
Theorem durationSeconds_constructor :
  durationSeconds "constructor" = Inherited "constructor"
  ∧ durationSeconds "constructor" ≠ Seconds 2100
  ∧ ∀ n, durationSeconds "constructor" ≠ Seconds n.
Proof.
  assert (durationSeconds "constructor" = Inherited "constructor") as ->
    by (by vm_compute).
  by repeat split.
Qed.

(** ** What each continuation does to the timers and the outstanding fetches *)

Lemma poll_then_intervals h job_id status w :
  intervals (poll_then h job_id status w) =
    if decide (Status.status status = "completed"
               ∨ Status.status status = "failed")
    then delete h (intervals w) else intervals w.
Proof.
  unfold poll_then.
  destruct (decide (Status.status status = "completed")) as [Hc|Hc].
  - by rewrite decide_True by auto.
  - destruct (decide (Status.status status = "failed")) as [Hf|Hf].
    + by rewrite decide_True by auto.
    + by rewrite decide_False by tauto.
Qed.

Lemma poll_then_nextHandle h job_id status w :
  nextHandle (poll_then h job_id status w) = nextHandle w.
Proof. unfold poll_then. by repeat case_decide. Qed.

Lemma poll_then_pendingFetches h job_id status w :
  pendingFetches (poll_then h job_id status w) = pendingFetches w.
Proof. unfold poll_then. by repeat case_decide. Qed.

(** Handles are given out in increasing order and never again: a timer that
    is not live and whose handle was already given out stays dead. *)
Lemma step_keeps_cancelled h w e w' :
  step w e = Some w' →
  h < nextHandle w → intervals w !! h = None →
  h < nextHandle w' ∧ intervals w' !! h = None.
Proof.
  intros Hstep Hlt Hdead. destruct e as [s d t|i r|h'|i r|]; simpl in Hstep.
  - destruct (input_shown w); simplify_eq. done.
  - destruct (pendingSubmits w !! i); simplify_eq.
    destruct r as [job_id|m|]; simpl; [|done..].
    split; [lia|]. rewrite lookup_insert_ne by lia. done.
  - destruct (intervals w !! h') eqn:E; simplify_eq.
    unfold poll_call. rewrite E. done.
  - destruct (pendingFetches w !! i) as [[h' j]|]; simplify_eq.
    destruct r as [status|m|]; [|done..].
    rewrite poll_then_nextHandle, poll_then_intervals. simpl.
    split; [done|]. case_decide; [|done].
    destruct (decide (h' = h)) as [->|Hne].
    + apply lookup_delete_eq.
    + by rewrite lookup_delete_ne.
  - destruct (download_shown w); simplify_eq. done.
Qed.

Lemma run_keeps_cancelled h events : ∀ w w',
  run w events = Some w' →
  h < nextHandle w → intervals w !! h = None →
  h < nextHandle w' ∧ intervals w' !! h = None.
Proof.
  induction events as [|e events IH]; intros w w' Hrun Hlt Hdead; simpl in Hrun.
  - by simplify_eq.
  - destruct (step w e) as [w1|] eqn:Hstep; [|done].
    destruct (step_keeps_cancelled h w e w1 Hstep Hlt Hdead) as [Hlt1 Hdead1].
    by apply (IH w1).
Qed.

Lemma step_sessions_from n w e w' :
  step w e = Some w' → sessions_from n w → sessions_from n w'.
Proof.
  intros Hstep (Hn & Hlive & Hout).
  destruct e as [s d t|i r|h'|i r|]; simpl in Hstep.
  - destruct (input_shown w); simplify_eq. done.
  - destruct (pendingSubmits w !! i); simplify_eq.
    destruct r as [job_id|m|]; [|done..].
    split; [simpl; lia|]. split; [|done]. simpl. intros h t.
    destruct (decide (nextHandle w = h)) as [<-|Hne].
    + done.
    + rewrite lookup_insert_ne by done. apply Hlive.
  - destruct (intervals w !! h') as [t|] eqn:E; simplify_eq.
    unfold poll_call. rewrite E. split; [done|]. split; [done|]. simpl.
    apply Forall_app. split; [done|]. apply Forall_singleton. simpl.
    by apply (Hlive h' t).
  - destruct (pendingFetches w !! i) as [[h' j]|]; simplify_eq.
    assert (Forall (λ f : nat * string, n ≤ f.1) (delete i (pendingFetches w)))
      as Hout' by by apply Forall_delete.
    destruct r as [status|m|]; [|done..].
    unfold sessions_from.
    rewrite poll_then_nextHandle, poll_then_intervals, poll_then_pendingFetches.
    split; [done|]. split; [|done]. simpl. intros h t.
    case_decide; [|apply Hlive].
    intros Hl. apply lookup_delete_Some in Hl as [_ Hl]. by apply (Hlive h t).
  - destruct (download_shown w); simplify_eq. done.
Qed.

Lemma run_sessions_from n events : ∀ w w',
  run w events = Some w' → sessions_from n w → sessions_from n w'.
Proof.
  induction events as [|e events IH]; intros w w' Hrun Hinv; simpl in Hrun.
  - by simplify_eq.
  - destruct (step w e) as [w1|] eqn:Hstep; [|done].
    apply (IH w1); [done|]. by apply (step_sessions_from n w e).
Qed.

(** ** Submission *)

(** Whenever the response to a [generateVideo] call arrives, and whatever
    happened since the call, the continuation installs the initial record,
    makes the progress screen current and starts the timer; it does not write
    the error, which was cleared when the handler was called. *)
Lemma submit_settles_resolved (w : World) (i : nat) (request : SubmitRequest)
    (job_id : string) :
  pendingSubmits w !! i = Some request →
  ∃ w',
    step w (SubmitSettles i (Resolved job_id)) = Some w'
    ∧ jobData w' =
        Some (JobData.mk job_id "queued" 0 (Some "Starting...") None None None)
    ∧ error w' = error w
    ∧ currentScreen w' = Progress
    ∧ intervals w' !! nextHandle w = Some (mkInterval job_id 2000).
Proof.
  intros Hout. simpl. rewrite Hout. eexists. split; [reflexivity|].
  simpl. split_and!; try done. apply lookup_insert_eq.
Qed.

Lemma step_error_empty w e w' :
  step w e = Some w' → sets_error e = false → error w = "" → error w' = "".
Proof.
  intros Hstep Hquiet Hempty.
  destruct e as [s d t|i r|h|i r|]; simpl in Hstep.
  - destruct (input_shown w); by simplify_eq.
  - destruct (pendingSubmits w !! i); simplify_eq.
    by destruct r as [job_id|m|].
  - destruct (intervals w !! h) as [t|] eqn:E; simplify_eq.
    unfold poll_call. by rewrite E.
  - destruct (pendingFetches w !! i) as [[h j]|]; simplify_eq.
    destruct r as [status|m|]; [|done..].
    simpl in Hquiet. apply bool_decide_eq_false in Hquiet.
    unfold poll_then. rewrite (decide_False (P := _ = "failed")) by done.
    by case_decide.
  - destruct (download_shown w); by simplify_eq.
Qed.

Lemma run_error_empty events : ∀ w w',
  run w events = Some w' → error_free events = true → error w = "" →
  error w' = "".
Proof.
  induction events as [|e events IH]; intros w w' Hrun Hquiet Hempty;
    simpl in Hrun, Hquiet.
  - by simplify_eq.
  - apply andb_true_iff in Hquiet as [He Hquiet].
    apply negb_true_iff in He.
    destruct (step w e) as [w1|] eqn:Hstep; [|done].
    apply (IH w1 w'); [done|done|]. by apply (step_error_empty w e).
Qed.

(** C3, as amended.  An invocation of [handleInputSubmit] clears the error
    and leaves its [generateVideo] call outstanding.  When then, after
    whatever events, an outstanding call resolves to [job_id], the record
    becomes
    [{jobId: job_id, status: 'queued', progress: 0, currentStep: 'Starting...'}]
    (no other member), the progress screen becomes current and a new 2000 ms
    timer is live whose tick fetches the status of [job_id].  The response
    does not write the error: it is as it was just before, hence empty when
    no event since the invocation put a message into it. *)
Theorem submit_resolves (script duration title job_id : string) (w : World)
    (events : list Event) (w1 : World) (i : nat) (request : SubmitRequest) :
  run (handleInputSubmit_call script duration title w) events = Some w1 →
  pendingSubmits w1 !! i = Some request →
  error (handleInputSubmit_call script duration title w) = ""
  ∧ pendingSubmits (handleInputSubmit_call script duration title w) =
      pendingSubmits w
        ++ [mkRequest script (durationSeconds duration)
              (or_string (Some title) "Untitled Video")]
  ∧ ∃ w',
      step w1 (SubmitSettles i (Resolved job_id)) = Some w'
      ∧ jobData w' =
          Some (JobData.mk job_id "queued" 0 (Some "Starting...") None None
                  None)
      ∧ currentScreen w' = Progress
      ∧ intervals w' !! nextHandle w1 = Some (mkInterval job_id 2000)
      ∧ step w' (TimerFires (nextHandle w1)) =
          Some (with_pendingFetches
                  (pendingFetches w1 ++ [(nextHandle w1, job_id)]) w')
      ∧ error w' = error w1
      ∧ (error_free events = true → error w' = "").
Proof.
  intros Hrun Hout. split; [done|]. split; [done|].
  simpl. rewrite Hout. eexists. split; [reflexivity|]. simpl.
  split_and!; try done.
  - apply lookup_insert_eq.
  - unfold poll_call. simpl. by rewrite lookup_insert_eq.
  - intros Hquiet. by apply (run_error_empty events _ w1 Hrun Hquiet).
Qed.

Lemma submit_resolves_witness :
  ∃ w',
    run initial
      [Submit "a script" "6-9" "My video";
       Submit "a script" "6-9" "My video";
       SubmitSettles 1 RejectedNullish;
       SubmitSettles 0 (Resolved "job-1")] = Some w'
    ∧ jobData w' =
        Some (JobData.mk "job-1" "queued" 0 (Some "Starting...") None None None)
    ∧ currentScreen w' = Progress
    ∧ intervals w' !! 0 = Some (mkInterval "job-1" 2000)
    ∧ error w' = "".
Proof.
  destruct (submit_resolves "a script" "6-9" "My video" "job-1" initial
              [Submit "a script" "6-9" "My video";
               SubmitSettles 1 RejectedNullish]
              (handleInputSubmit_call "a script" "6-9" "My video" initial)
              0
              (mkRequest "a script" (Seconds 450) "My video"))
    as (_ & _ & w' & Hstep & Hjob & Hscreen & Htimer & _ & _ & Herr).
  - by vm_compute.
  - by vm_compute.
  - exists w'. split_and!.
    + simpl. exact Hstep.
    + exact Hjob.
    + exact Hscreen.
    + exact Htimer.
    + by apply Herr.
Defined.

(** C3, as stated, fails: the user submits twice; the second call rejects,
    which sets the error, and then the first call resolves.  At the end of
    that successful invocation the record, the progress screen and the timer
    are there, but the error is not cleared. *)
Lemma submit_success_error_left :
  ∃ w',
    run initial
      [Submit "a script" "6-9" "My video";
       Submit "a script" "6-9" "My video";
       SubmitSettles 1 (Rejected (Some "boom"));
       SubmitSettles 0 (Resolved "job-1")] = Some w'
    ∧ jobData w' =
        Some (JobData.mk "job-1" "queued" 0 (Some "Starting...") None None None)
    ∧ currentScreen w' = Progress
    ∧ intervals w' !! 0 = Some (mkInterval "job-1" 2000)
    ∧ error w' = "boom"
    ∧ error w' ≠ "".
Proof. eexists. split; [by vm_compute|]. by vm_compute. Qed.

(** Whenever an outstanding [generateVideo] call rejects with an [err] on
    which [.message] can be read, the error becomes that message, or
    ['Failed to start video generation'] when it is missing or empty; the
    record, the current screen and the timers are as before, so from the
    input screen with no record the input view is still shown and there is
    still no record. *)
Lemma submit_settles_rejected (w : World) (i : nat) (request : SubmitRequest)
    (message : option string) :
  pendingSubmits w !! i = Some request →
  ∃ w',
    step w (SubmitSettles i (Rejected message)) = Some w'
    ∧ (∀ m, message = Some m → m ≠ "" → error w' = m)
    ∧ (message = None ∨ message = Some "" →
       error w' = "Failed to start video generation")
    ∧ jobData w' = jobData w
    ∧ currentScreen w' = currentScreen w
    ∧ intervals w' = intervals w
    ∧ (currentScreen w = Input → jobData w = None →
       jobData w' = None ∧ render w' = [InputScreen]).
Proof.
  intros Hout. simpl. rewrite Hout. eexists. split; [reflexivity|]. simpl.
  split_and!; try done.
  - intros m -> Hm. simpl. by rewrite decide_False.
  - by intros [->| ->].
  - unfold render. simpl. intros Hscreen Hjob. by rewrite Hscreen.
Qed.

Lemma submit_settles_rejected_witness :
  ∃ w',
    step (handleInputSubmit_call "a script" "6-9" "" initial)
         (SubmitSettles 0 (Rejected (Some "Network Error"))) = Some w'
    ∧ error w' = "Network Error"
    ∧ jobData w' = None
    ∧ render w' = [InputScreen].
Proof.
  destruct (submit_settles_rejected
              (handleInputSubmit_call "a script" "6-9" "" initial) 0
              (mkRequest "a script" (Seconds 450) "Untitled Video")
              (Some "Network Error"))
    as (w' & Hstep & Hmsg & _ & _ & _ & _ & Hinput).
  - by vm_compute.
  - exists w'. split; [exact Hstep|]. split; [by apply Hmsg|].
    by apply Hinput.
Defined.

(** C5, at a [generateVideo] call that rejects with [undefined] (or [null]):
    the [catch] clause throws while reading [err.message], [setError] is
    not reached, and the error stays empty instead of becoming the fallback
    message.  The record, the screen and the timers are untouched. *)
Theorem submit_rejected_nullish :
  ∃ w',
    run initial
      [Submit "a script" "6-9" "My video"; SubmitSettles 0 RejectedNullish]
      = Some w'
    ∧ error w' = ""
    ∧ error w' ≠ "Failed to start video generation"
    ∧ jobData w' = None
    ∧ currentScreen w' = Input
    ∧ intervals w' = ∅.
Proof. eexists. split; [by vm_compute|]. by vm_compute. Qed.

(** ** Reset *)

(** C2, as amended.  [handleCreateNew], from any state, leaves no record, an
    empty error and the input screen; it cancels no timer and no outstanding
    fetch; and when no timer is live and no fetch is outstanding at the
    reset, every poll event that happens afterwards belongs to a timer
    created after the reset. *)
Theorem reset_post_state (w : World) :
  jobData (handleCreateNew w) = None
  ∧ error (handleCreateNew w) = ""
  ∧ currentScreen (handleCreateNew w) = Input
  ∧ intervals (handleCreateNew w) = intervals w
  ∧ pendingFetches (handleCreateNew w) = pendingFetches w
  ∧ (intervals w = ∅ → pendingFetches w = [] →
     ∀ events w1 e w2 h,
       run (handleCreateNew w) events = Some w1 →
       step w1 e = Some w2 →
       timer_of w1 e = Some h →
       nextHandle w ≤ h).
Proof.
  split_and!; try done.
  intros Hlive Hout events w1 e w2 h Hrun Hstep Htimer.
  assert (sessions_from (nextHandle w) (handleCreateNew w)) as Hinv.
  { split; [done|]. simpl. rewrite Hlive, Hout. split; [|done].
    intros h' t Hl. by rewrite lookup_empty in Hl. }
  apply (run_sessions_from _ _ _ _ Hrun) in Hinv as (_ & Hl1 & Ho1).
  destruct e as [s d t|i r|h'|i r|]; simpl in Htimer; try done.
  - simplify_eq. simpl in Hstep.
    destruct (intervals w1 !! h) as [t|] eqn:E; [|done]. by apply (Hl1 h t).
  - destruct (pendingFetches w1 !! i) as [[h' j]|] eqn:E; [|done].
    simpl in Htimer. injection Htimer as <-.
    by apply (Forall_lookup_1 _ _ _ _ Ho1 E).
Qed.

Lemma reset_post_state_witness :
  jobData (handleCreateNew completed_world) = None
  ∧ error (handleCreateNew completed_world) = ""
  ∧ currentScreen (handleCreateNew completed_world) = Input
  ∧ nextHandle completed_world ≤ 1.
Proof.
  destruct (reset_post_state completed_world)
    as (Hjob & Herr & Hscreen & _ & _ & Hlater).
  split_and!; [exact Hjob | exact Herr | exact Hscreen |].
  eapply (Hlater eq_refl eq_refl
            [Submit "another script" "10-12" "Second";
             SubmitSettles 0 (Resolved "job-2")]
            _ (TimerFires 1) _ 1).
  - vm_compute. reflexivity.
  - vm_compute. reflexivity.
  - reflexivity.
Defined.

(** ** The progress view *)

(** C10.  With the progress screen current and a record present, exactly the
    progress view is rendered; it gets the record's [progress] unchanged, the
    record's [currentStep] or ['Processing...'] when that is absent (or
    empty), the record's [etaSeconds] or 0 when that is absent, and the
    current error message. *)
Theorem progress_view_props (w : World) (j : JobData.t) :
  currentScreen w = Progress →
  jobData w = Some j →
  ∃ p,
    render w = [ProgressScreen p]
    ∧ pp_progress p = JobData.progress j
    ∧ (JobData.currentStep j = None → pp_currentStep p = "Processing...")
    ∧ (JobData.currentStep j = Some "" → pp_currentStep p = "Processing...")
    ∧ (∀ s, JobData.currentStep j = Some s → s ≠ "" → pp_currentStep p = s)
    ∧ (JobData.etaSeconds j = None → pp_etaSeconds p = 0%Z)
    ∧ (∀ n, JobData.etaSeconds j = Some n → pp_etaSeconds p = n)
    ∧ pp_error p = error w.
Proof.
  intros Hscreen Hjob. unfold render. rewrite Hscreen, Hjob. simpl.
  eexists. split; [reflexivity|]. simpl. split_and!; try done.
  - by intros ->.
  - by intros ->.
  - intros s -> Hs. simpl. by rewrite decide_False.
  - by intros ->.
  - intros n ->. simpl. by case_decide.
Qed.

Lemma progress_view_props_witness :
  ∃ p,
    render (mkWorld Progress
              (Some (JobData.mk "job-1" "processing" 40 None None None None))
              "" ∅ 1 [] [])
      = [ProgressScreen p]
    ∧ pp_progress p = 40%Z
    ∧ pp_currentStep p = "Processing..."
    ∧ pp_etaSeconds p = 0%Z
    ∧ pp_error p = "".
Proof.
  destruct (progress_view_props
              (mkWorld Progress
                 (Some (JobData.mk "job-1" "processing" 40 None None None None))
                 "" ∅ 1 [] [])
              (JobData.mk "job-1" "processing" 40 None None None None)
              eq_refl eq_refl)
    as (p & Hrender & Hprogress & Hstep & _ & _ & Heta & _ & Herror).
  exists p. split_and!;
    [exact Hrender | exact Hprogress | by apply Hstep | by apply Heta
    | exact Herror].
Defined.

(** ** Polling *)

Lemma step_handles_issued w e w' :
  step w e = Some w' → handles_issued w → handles_issued w'.
Proof.
  intros Hstep (Hlive & Hout).
  destruct e as [s d t|i r|h'|i r|]; simpl in Hstep.
  - destruct (input_shown w); simplify_eq. done.
  - destruct (pendingSubmits w !! i); simplify_eq.
    destruct r as [job_id|m|]; [|done..]. split; simpl.
    + intros h t. destruct (decide (nextHandle w = h)) as [<-|Hne]; [lia|].
      rewrite lookup_insert_ne by done. intros Hl. apply Hlive in Hl. lia.
    + eapply Forall_impl; [exact Hout|]. simpl. lia.
  - destruct (intervals w !! h') as [t|] eqn:E; simplify_eq.
    unfold poll_call. rewrite E. split; [done|]. simpl.
    apply Forall_app. split; [done|]. apply Forall_singleton. simpl.
    by apply (Hlive h' t).
  - destruct (pendingFetches w !! i) as [[h' j]|]; simplify_eq.
    assert (Forall (λ f : nat * string, f.1 < nextHandle w)
              (delete i (pendingFetches w))) as Hout'
      by by apply Forall_delete.
    destruct r as [status|m|]; [|done..].
    unfold handles_issued.
    rewrite poll_then_nextHandle, poll_then_intervals, poll_then_pendingFetches.
    split; [|done]. simpl. intros h t. case_decide; [|apply Hlive].
    intros Hl. apply lookup_delete_Some in Hl as [_ Hl]. by apply (Hlive h t).
  - destruct (download_shown w); simplify_eq. done.
Qed.

Lemma reachable_handles_issued w : reachable w → handles_issued w.
Proof.
  intros [events Hrun].
  assert (handles_issued initial) as Hinit.
  { split; [|by apply Forall_nil]. intros h t Hl. simpl in Hl.
    by rewrite lookup_empty in Hl. }
  revert Hrun Hinit. generalize initial.
  induction events as [|e events IH]; intros w0 Hrun Hinv; simpl in Hrun.
  - by simplify_eq.
  - destruct (step w0 e) as [w1|] eqn:Hstep; [|done].
    apply (IH w1); [done|]. by apply (step_handles_issued w0 e).
Qed.

Lemma reachable_step w e w' : reachable w → step w e = Some w' → reachable w'.
Proof.
  intros [events Hrun] Hstep. exists (events ++ [e]).
  revert Hrun. generalize initial.
  induction events as [|e0 events IH]; intros w0 Hrun; simpl in *.
  - simplify_eq. by rewrite Hstep.
  - destruct (step w0 e0) as [w1|]; [|done]. by apply IH.
Qed.

Lemma ticks_app h rs1 : ∀ rs2 w,
  ticks h (rs1 ++ rs2) w =
    match ticks h rs1 w with
    | Some w' => ticks h rs2 w'
    | None => None
    end.
Proof.
  induction rs1 as [|r rs1 IH]; intros rs2 w; simpl; [done|].
  destruct (tick h r w); [apply IH|done].
Qed.

(** The response to an outstanding fetch is applied whatever has happened to
    its timer meanwhile. *)
Lemma fetch_settles w i h job_id status :
  pendingFetches w !! i = Some (h, job_id) →
  step w (FetchSettles i (Resolved status)) =
    Some (poll_then h job_id status
            (with_pendingFetches (delete i (pendingFetches w)) w)).
Proof. intros Hout. simpl. by rewrite Hout. Qed.

(** C4.  When the fetch of a poll tick resolves with [status === 'failed'],
    the tick's timer is cleared and never fires again, so it issues no
    further fetch; the error becomes the response's [error], or
    ['Video generation failed'] when that is missing or empty; and the
    current screen is as before, so the progress screen stays. *)
Theorem poll_failed (w : World) (i h : nat) (job_id : string)
    (status : Status.t) :
  reachable w →
  pendingFetches w !! i = Some (h, job_id) →
  Status.status status = "failed" →
  ∃ w',
    step w (FetchSettles i (Resolved status)) = Some w'
    ∧ intervals w' !! h = None
    ∧ (∀ events w'', run w' events = Some w'' →
         intervals w'' !! h = None ∧ step w'' (TimerFires h) = None)
    ∧ (∀ x, Status.error status = Some x → x ≠ "" → error w' = x)
    ∧ (Status.error status = None ∨ Status.error status = Some "" →
       error w' = "Video generation failed")
    ∧ currentScreen w' = currentScreen w
    ∧ (currentScreen w = Progress → currentScreen w' = Progress).
Proof.
  intros Hreach Hout Hfailed.
  rewrite (fetch_settles w i h job_id status Hout).
  eexists. split; [reflexivity|].
  assert (intervals
            (poll_then h job_id status
               (with_pendingFetches (delete i (pendingFetches w)) w)) !! h
          = None) as Hdead.
  { rewrite poll_then_intervals. rewrite decide_True by auto.
    apply lookup_delete_eq. }
  assert (h < nextHandle w) as Hlt.
  { apply reachable_handles_issued in Hreach as [_ Hall].
    by apply (Forall_lookup_1 _ _ _ _ Hall Hout). }
  split_and!.
  - exact Hdead.
  - intros events w'' Hrun.
    destruct (run_keeps_cancelled h events _ w'' Hrun) as [_ Hdead''].
    + by rewrite poll_then_nextHandle.
    + exact Hdead.
    + split; [done|]. simpl. by rewrite Hdead''.
  - intros x Hx Hne. unfold poll_then. rewrite Hfailed. simpl.
    rewrite Hx. simpl. by rewrite decide_False.
  - intros Hx. unfold poll_then. rewrite Hfailed. simpl.
    by destruct Hx as [-> | ->].
  - unfold poll_then. by rewrite Hfailed.
  - intros Hp. unfold poll_then. by rewrite Hfailed.
Qed.

Lemma polling_world_reachable : reachable polling_world.
Proof. exists polling_events. by vm_compute. Qed.

Lemma poll_failed_witness :
  ∃ w',
    step polling_world
         (FetchSettles 0
            (Resolved (Status.mk "failed" 35 None None (Some "render crashed")
                         None)))
      = Some w'
    ∧ intervals w' !! 0 = None
    ∧ step w' (TimerFires 0) = None
    ∧ error w' = "render crashed"
    ∧ currentScreen w' = Progress.
Proof.
  destruct (poll_failed polling_world 0 0 "job-1"
              (Status.mk "failed" 35 None None (Some "render crashed") None)
              polling_world_reachable eq_refl eq_refl)
    as (w' & Hstep & Hdead & Hlater & Hmsg & _ & _ & Hscreen).
  exists w'. split_and!.
  - exact Hstep.
  - exact Hdead.
  - by apply (Hlater [] w').
  - by apply (Hmsg "render crashed").
  - by apply Hscreen.
Defined.

(** C9.  When the fetch of a poll tick resolves with a [status] that is
    neither ['completed'] nor ['failed'] as a string (so also ['Completed'],
    ['FAILED'] or an unknown value), the current screen, the error and the
    timers are as before: the tick's timer, if live, stays live and fires
    again. *)
Theorem poll_other_status (w : World) (i h : nat) (job_id : string)
    (status : Status.t) :
  pendingFetches w !! i = Some (h, job_id) →
  Status.status status ≠ "completed" →
  Status.status status ≠ "failed" →
  ∃ w',
    step w (FetchSettles i (Resolved status)) = Some w'
    ∧ currentScreen w' = currentScreen w
    ∧ error w' = error w
    ∧ intervals w' = intervals w
    ∧ (∀ t, intervals w !! h = Some t →
         intervals w' !! h = Some t
         ∧ step w' (TimerFires h) = Some (poll_call h w')).
Proof.
  intros Hout Hc Hf. rewrite (fetch_settles w i h job_id status Hout).
  eexists. split; [reflexivity|].
  unfold poll_then. rewrite !decide_False by done. simpl.
  split_and!; try done.
  intros t Hlive. split; [done|]. by rewrite Hlive.
Qed.

Lemma poll_other_status_witness :
  ∃ w',
    step polling_world
         (FetchSettles 0
            (Resolved (Status.mk "Completed" 100 None None None None)))
      = Some w'
    ∧ currentScreen w' = Progress
    ∧ error w' = ""
    ∧ intervals w' !! 0 = Some (mkInterval "job-1" 2000).
Proof.
  destruct (poll_other_status polling_world 0 0 "job-1"
              (Status.mk "Completed" 100 None None None None) eq_refl)
    as (w' & Hstep & Hscreen & Herr & _ & Hlive).
  - by vm_compute.
  - by vm_compute.
  - exists w'. split_and!; [exact Hstep | exact Hscreen | exact Herr |].
    by apply (Hlive (mkInterval "job-1" 2000)).
Defined.



(** ** The record under polling *)



(** ** The download screen *)

(** The download view is rendered only from a record that carries a
    result. *)
Lemma download_view_has_result (w : World) (props : DownloadProps) :
  DownloadScreen props ∈ render w →
  currentScreen w = Download
  ∧ ∃ j r, jobData w = Some j ∧ JobData.result j = Some r.
Proof.
  unfold render. intros Hin.
  apply elem_of_app in Hin as [Hin|Hin];
    [|apply elem_of_app in Hin as [Hin|Hin]].
  - case_decide; [|by apply elem_of_nil in Hin].
    by apply list_elem_of_singleton in Hin.
  - case_decide; [|by apply elem_of_nil in Hin].
    destruct (jobData w); [|by apply elem_of_nil in Hin].
    by apply list_elem_of_singleton in Hin.
  - case_decide as Hscreen; [|by apply elem_of_nil in Hin].
    split; [done|].
    destruct (jobData w) as [j|]; [|by apply elem_of_nil in Hin].
    destruct (JobData.result j) as [r|] eqn:Hresult;
      [|by apply elem_of_nil in Hin].
    by exists j, r.
Qed.

Lemma ticks_keep_polling h t rs : ∀ w,
  intervals w !! h = Some t →
  Forall keeps_polling rs →
  ∃ w',
    ticks h rs w = Some w'
    ∧ currentScreen w' = currentScreen w
    ∧ intervals w' !! h = Some t.
Proof.
  induction rs as [|r rs IH]; intros w Hlive Hall; simpl.
  - by exists w.
  - apply Forall_cons in Hall as [Hr Hall].
    rewrite (tick_live h r w t Hlive).
    destruct r as [status|m|]; simpl in Hr.
    + destruct Hr as [Hc Hf].
      destruct (IH (poll_then h (bound_job_id t) status w)) as (w' & Hrun & Hs & Hl).
      * rewrite poll_then_intervals. by rewrite decide_False by tauto.
      * done.
      * exists w'. split; [done|]. split; [|done].
        rewrite Hs. unfold poll_then. by rewrite !decide_False by done.
    + by apply IH.
    + by apply IH.
Qed.

(** C1, as amended.  The download view is rendered only when the download
    screen is current and the record carries a result.  For a poll sequence
    of a session on the progress screen whose responses before the last
    neither complete nor fail and whose last response is ['completed']: the
    progress screen stays current through every earlier response, and the
    download screen becomes current at the last one, whether or not it
    carries a result; with a result the download view is rendered from it,
    without one nothing is rendered. *)
Theorem download_at_completed (h : nat) (t : Interval)
    (earlier : list (Outcome Status.t)) (last : Status.t) (w : World) :
  currentScreen w = Progress →
  intervals w !! h = Some t →
  Forall keeps_polling earlier →
  Status.status last = "completed" →
  (∀ w0 props, DownloadScreen props ∈ render w0 →
     currentScreen w0 = Download
     ∧ ∃ j r, jobData w0 = Some j ∧ JobData.result j = Some r)
  ∧ (∀ k, ∃ wk,
       ticks h (take k earlier) w = Some wk ∧ currentScreen wk = Progress)
  ∧ ∃ w',
      ticks h (earlier ++ [Resolved last]) w = Some w'
      ∧ currentScreen w' = Download
      ∧ jobData w' = Some (record_of (bound_job_id t) last)
      ∧ (∀ r, Status.result last = Some r →
           render w' =
             [DownloadScreen
                (mkDownloadProps (bound_job_id t) (premiere_url r)
                   (capcut_url r) (clips_count r) (images_count r)
                   (expires_at r))])
      ∧ (Status.result last = None → render w' = []).
Proof.
  intros Hscreen Hlive Hall Hlast. split_and!.
  - apply download_view_has_result.
  - intros k.
    destruct (ticks_keep_polling h t (take k earlier) w Hlive)
      as (wk & Hrun & Hs & _); [by apply Forall_take|].
    exists wk. split; [done|]. by rewrite Hs.
  - destruct (ticks_keep_polling h t earlier w Hlive Hall)
      as (w1 & Hrun & Hs & Hl).
    rewrite ticks_app, Hrun. simpl.
    rewrite (tick_live h (Resolved last) w1 t Hl).
    eexists. split; [reflexivity|].
    assert (currentScreen (poll_then h (bound_job_id t) last w1) = Download)
      as Hdown by (unfold poll_then; by rewrite Hlast).
    split_and!.
    + exact Hdown.
    + apply poll_then_jobData.
    + intros r Hr. unfold render.
      rewrite Hdown, poll_then_jobData. simpl. by rewrite Hr.
    + intros Hr. unfold render.
      rewrite Hdown, poll_then_jobData. simpl. by rewrite Hr.
Qed.

Lemma download_at_completed_witness :
  ∃ w',
    ticks 0
      [Resolved (Status.mk "processing" 60 (Some "Rendering") None None None);
       Rejected None;
       Resolved (Status.mk "completed" 100 None None None (Some sample_result))]
      polling_world = Some w'
    ∧ currentScreen w' = Download
    ∧ render w' =
        [DownloadScreen
           (mkDownloadProps "job-1" "https://cdn/premiere.zip"
              "https://cdn/capcut.zip" 12 4 "2026-01-01T00:00:00Z")].
Proof.
  destruct (download_at_completed 0 (mkInterval "job-1" 2000)
              [Resolved (Status.mk "processing" 60 (Some "Rendering") None
                           None None);
               Rejected None]
              (Status.mk "completed" 100 None None None (Some sample_result))
              polling_world)
    as (_ & _ & w' & Hrun & Hscreen & _ & Hview & _).
  - reflexivity.
  - by vm_compute.
  - repeat constructor; by vm_compute.
  - reflexivity.
  - exists w'. split_and!; [exact Hrun | exact Hscreen |].
    by apply (Hview sample_result).
Defined.

(** C1, as stated, fails: after a ['completed'] response without a result
    the download screen is current although the record carries no result
    (and nothing is rendered). *)
Lemma download_without_result :
  ∃ w,
    run initial
      [Submit "a script" "6-9" "My video";
       SubmitSettles 0 (Resolved "job-1");
       TimerFires 0;
       FetchSettles 0
         (Resolved (Status.mk "completed" 100 None None None None))]
      = Some w
    ∧ currentScreen w = Download
    ∧ jobData w = Some (JobData.mk "job-1" "completed" 100 None None None None)
    ∧ render w = [].
Proof. eexists. split; [by vm_compute|]. by vm_compute. Qed.

(** C2, as stated, fails: the timer fires twice before the first response
    arrives; the first response completes the job, the user presses "create
    new", and then the second response of the old timer is applied: the old
    record is back and the download screen is current again. *)
Lemma tick_applied_after_reset :
  ∃ w w_reset w',
    run initial
      [Submit "a script" "6-9" "My video";
       SubmitSettles 0 (Resolved "job-1");
       TimerFires 0;
       TimerFires 0;
       FetchSettles 0
         (Resolved (Status.mk "completed" 100 None None None
                      (Some sample_result)))]
      = Some w
    ∧ step w CreateNew = Some w_reset
    ∧ jobData w_reset = None
    ∧ error w_reset = ""
    ∧ currentScreen w_reset = Input
    ∧ timer_of w_reset
        (FetchSettles 0
           (Resolved (Status.mk "completed" 100 None None None
                        (Some sample_result)))) = Some 0
    ∧ 0 < nextHandle w
    ∧ step w_reset
        (FetchSettles 0
           (Resolved (Status.mk "completed" 100 None None None
                        (Some sample_result)))) = Some w'
    ∧ jobData w' =
        Some (JobData.mk "job-1" "completed" 100 None None None
                (Some sample_result))
    ∧ currentScreen w' = Download.
Proof.
  eexists _, _, _.
  split; [by vm_compute|]. split; [by vm_compute|].
  split_and!; by vm_compute.
Qed.

(** ** What is on screen *)

Lemma input_shown_iff (w : World) :
  input_shown w = true ↔ currentScreen w = Input.
Proof.
  unfold input_shown, render.
  destruct (currentScreen w); simpl; [done| |].
  - split; [|done]. by destruct (jobData w).
  - split; [|done]. destruct (jobData w) as [j|]; [|done].
    by destruct (JobData.result j).
Qed.

Lemma download_shown_iff (w : World) :
  download_shown w = true ↔
  currentScreen w = Download
  ∧ ∃ j r, jobData w = Some j ∧ JobData.result j = Some r.
Proof.
  unfold download_shown, render.
  destruct (currentScreen w); simpl.
  - split; [done|]. by intros [? _].
  - split; [|by intros [? _]]. by destruct (jobData w).
  - destruct (jobData w) as [j|]; simpl.
    + destruct (JobData.result j) as [r|] eqn:Hr; simpl.
      * split; [|done]. intros _. split; [done|]. by exists j, r.
      * split; [done|]. intros [_ (j' & r & Hj & Hr')]. congruence.
    + split; [done|]. by intros [_ (j' & r & Hj & _)].
Qed.

(** X1.  At most one view is rendered.  The input view is rendered exactly
    when the input screen is current, and nothing is rendered exactly when
    the progress screen is current without a record or the download screen
    is current without a record that carries a result. *)
Theorem render_one_view (w : World) :
  length (render w) ≤ 1
  ∧ (InputScreen ∈ render w ↔ currentScreen w = Input)
  ∧ (render w = [] ↔
       (currentScreen w = Progress ∧ jobData w = None)
       ∨ (currentScreen w = Download
          ∧ ∀ j, jobData w = Some j → JobData.result j = None)).
Proof.
  unfold render. destruct (currentScreen w); simpl.
  - split_and!; [lia| |].
    + split; [done|]. intros _. apply list_elem_of_singleton. done.
    + split; [done|]. by intros [[? _]|[? _]].
  - destruct (jobData w) as [j|]; simpl.
    + split_and!; [lia| |].
      * split; [|done]. intros Hin. by apply list_elem_of_singleton in Hin.
      * split; [done|]. by intros [[_ ?]|[? _]].
    + split_and!; [lia| |].
      * split; [|done]. intros Hin. by apply elem_of_nil in Hin.
      * split; [|done]. intros _. by left.
  - destruct (jobData w) as [j|]; simpl.
    + destruct (JobData.result j) as [r|] eqn:Hr; simpl.
      * split_and!; [lia| |].
        -- split; [|done]. intros Hin.
           by apply list_elem_of_singleton in Hin.
        -- split; [done|]. intros [[? _]|[_ Hnone]]; [done|].
           specialize (Hnone j eq_refl). congruence.
      * split_and!; [lia| |].
        -- split; [|done]. intros Hin. by apply elem_of_nil in Hin.
        -- split; [|done]. intros _. right. split; [done|].
           intros j' Hj'. by simplify_eq.
    + split_and!; [lia| |].
      * split; [|done]. intros Hin. by apply elem_of_nil in Hin.
      * split; [|done]. intros _. right. split; [done|]. by intros j' Hj'.
Qed.

Lemma render_one_view_witness :
  render (mkWorld Download
            (Some (JobData.mk "job-1" "completed" 100 None None None None))
            "" ∅ 1 [] []) = [].
Proof.
  destruct (render_one_view
              (mkWorld Download
                 (Some (JobData.mk "job-1" "completed" 100 None None None None))
                 "" ∅ 1 [] []))
    as (_ & _ & Hblank).
  apply Hblank. right. split; [reflexivity|].
  intros j Hj. injection Hj as <-. reflexivity.
Defined.

(** ** The state machine as a whole *)

Lemma poll_then_currentScreen h job_id status w :
  currentScreen (poll_then h job_id status w) =
    if decide (Status.status status = "completed") then Download
    else currentScreen w.
Proof. unfold poll_then. by repeat case_decide. Qed.

Lemma poll_then_error h job_id status w :
  error (poll_then h job_id status w) =
    if decide (Status.status status = "completed") then error w
    else if decide (Status.status status = "failed")
         then or_string (Status.error status) "Video generation failed"
         else error w.
Proof. unfold poll_then. by repeat case_decide. Qed.

Lemma step_record_or_input w e w' :
  step w e = Some w' → record_or_input w → record_or_input w'.
Proof.
  intros Hstep Hinv. destruct e as [s d t|i r|h|i r|]; simpl in Hstep.
  - destruct (input_shown w); simplify_eq. exact Hinv.
  - destruct (pendingSubmits w !! i); simplify_eq.
    destruct r as [job_id|m|]; [done|exact Hinv..].
  - destruct (intervals w !! h) as [t|] eqn:E; simplify_eq.
    unfold poll_call. rewrite E. exact Hinv.
  - destruct (pendingFetches w !! i) as [[h j]|]; simplify_eq.
    destruct r as [status|m|]; [|exact Hinv..].
    unfold record_or_input. by rewrite poll_then_jobData.
  - destruct (download_shown w); simplify_eq. done.
Qed.

(** X2.  In every reachable state a missing record means the input screen is
    current; hence whenever the progress screen is current there is a record
    and the progress view is what is rendered: the guard [&& jobData] of
    line 148 never hides it. *)
Theorem progress_screen_never_blank (w : World) :
  reachable w →
  (jobData w = None → currentScreen w = Input ∧ render w = [InputScreen])
  ∧ (currentScreen w = Progress →
     ∃ j, jobData w = Some j
          ∧ render w = [ProgressScreen (progress_props j (error w))]).
Proof.
  intros [events Hrun].
  assert (record_or_input w) as Hinv.
  { assert (record_or_input initial) as Hinit by done.
    revert Hrun Hinit. generalize initial.
    induction events as [|e events IH]; intros w0 Hrun Hinit; simpl in Hrun.
    - by simplify_eq.
    - destruct (step w0 e) as [w1|] eqn:Hstep; [|done].
      apply (IH w1); [done|]. by apply (step_record_or_input w0 e). }
  split.
  - intros Hnone. pose proof (Hinv Hnone) as Hscreen. split; [done|].
    unfold render. by rewrite Hscreen, Hnone.
  - intros Hscreen. destruct (jobData w) as [j|] eqn:Hj.
    + exists j. split; [done|]. unfold render. by rewrite Hscreen, Hj.
    + specialize (Hinv Hj). congruence.
Qed.

Lemma progress_screen_never_blank_witness :
  ∃ j, jobData polling_world = Some j
       ∧ render polling_world = [ProgressScreen (progress_props j "")].
Proof.
  destruct (progress_screen_never_blank polling_world) as [_ Hprogress].
  - exists polling_events. by vm_compute.
  - by apply Hprogress.
Defined.

(** X3.  The current screen changes in three ways only: a [generateVideo]
    call resolves (to the progress screen), a [checkStatus] call resolves
    with ['completed'] (to the download screen), or "create new" is pressed
    on the download screen (to the input screen).  Submitting, a rejected
    call, a timer firing and every other poll response leave it as it is. *)
Theorem screen_transitions (w : World) (e : Event) (w' : World) :
  step w e = Some w' →
  currentScreen w' ≠ currentScreen w →
  (∃ i job_id, e = SubmitSettles i (Resolved job_id)
               ∧ currentScreen w' = Progress)
  ∨ (∃ i status, e = FetchSettles i (Resolved status)
                 ∧ Status.status status = "completed"
                 ∧ currentScreen w' = Download)
  ∨ (e = CreateNew ∧ currentScreen w = Download ∧ currentScreen w' = Input).
Proof.
  intros Hstep Hne. destruct e as [s d t|i r|h|i r|]; simpl in Hstep.
  - destruct (input_shown w); by simplify_eq.
  - destruct (pendingSubmits w !! i); simplify_eq.
    destruct r as [job_id|m|]; [|done..]. left. by exists i, job_id.
  - destruct (intervals w !! h) as [t|] eqn:E; simplify_eq.
    unfold poll_call in Hne. by rewrite E in Hne.
  - destruct (pendingFetches w !! i) as [[h j]|]; simplify_eq.
    destruct r as [status|m|]; [|done..].
    rewrite poll_then_currentScreen in Hne.
    right; left. exists i, status.
    rewrite poll_then_currentScreen. by case_decide.
  - destruct (download_shown w) eqn:Hd; simplify_eq.
    apply download_shown_iff in Hd as [Hd _]. by right; right.
Qed.

Lemma screen_transitions_witness :
  ∃ i status,
    FetchSettles 0
      (Resolved (Status.mk "completed" 100 None None None (Some sample_result)))
      = FetchSettles i (Resolved status)
    ∧ Status.status status = "completed".
Proof.
  destruct (screen_transitions polling_world
              (FetchSettles 0
                 (Resolved (Status.mk "completed" 100 None None None
                              (Some sample_result))))
              _ eq_refl)
    as [(i & job_id & He & _)|[(i & status & He & Hs & _)|(He & _)]].
  - by vm_compute.
  - discriminate He.
  - by exists i, status.
  - discriminate He.
Defined.

(** X4.  The error message is written in four ways only: a submission
    clears it, a rejected [generateVideo] call sets it, a [checkStatus]
    response with ['failed'] sets it, and "create new" clears it.  A timer
    firing, a rejected [checkStatus] call and every other poll response never
    touch it. *)
Theorem error_writes (w : World) (e : Event) (w' : World) :
  step w e = Some w' →
  error w' ≠ error w →
  (∃ script duration title, e = Submit script duration title ∧ error w' = "")
  ∨ (∃ i message,
       e = SubmitSettles i (Rejected message)
       ∧ error w' = or_string message "Failed to start video generation")
  ∨ (∃ i status,
       e = FetchSettles i (Resolved status)
       ∧ Status.status status = "failed"
       ∧ error w' = or_string (Status.error status) "Video generation failed")
  ∨ (e = CreateNew ∧ error w' = "").
Proof.
  intros Hstep Hne. destruct e as [s d t|i r|h|i r|]; simpl in Hstep.
  - destruct (input_shown w); simplify_eq. left. by exists s, d, t.
  - destruct (pendingSubmits w !! i); simplify_eq.
    destruct r as [job_id|m|]; [done| |done]. right; left. by exists i, m.
  - destruct (intervals w !! h) as [t|] eqn:E; simplify_eq.
    unfold poll_call in Hne. by rewrite E in Hne.
  - destruct (pendingFetches w !! i) as [[h j]|]; simplify_eq.
    destruct r as [status|m|]; [|done..].
    rewrite poll_then_error in Hne. right; right; left. exists i, status.
    rewrite poll_then_error. by repeat case_decide.
  - destruct (download_shown w); simplify_eq. by right; right; right.
Qed.

Lemma error_writes_witness :
  ∃ i message,
    SubmitSettles 0 (Rejected (Some "Network Error"))
      = SubmitSettles i (Rejected message)
    ∧ or_string message "Failed to start video generation" = "Network Error".
Proof.
  destruct (error_writes
              (handleInputSubmit_call "a script" "6-9" "My video" initial)
              (SubmitSettles 0 (Rejected (Some "Network Error")))
              _ eq_refl)
    as [(s & d & t & He & _)|[(i & m & He & Hm)|
        [(i & status & He & _)|(He & _)]]].
  - by vm_compute.
  - discriminate He.
  - exists i, m. split; [exact He|]. by injection He as <- <-.
  - discriminate He.
  - discriminate He.
Defined.

(** ** The life of a timer *)

(** X5.  A live timer goes away in one way only: a [checkStatus] call issued
    by that very timer resolves with ['completed'] or ['failed'].  Nothing
    else clears it: not "create new", not a new submission, not a rejected
    call, not the response to a fetch of another timer. *)
Theorem timer_cleared_only_by_terminal (w : World) (e : Event) (w' : World)
    (h : nat) (t : Interval) :
  step w e = Some w' →
  intervals w !! h = Some t →
  intervals w' !! h = None →
  ∃ i job_id status,
    e = FetchSettles i (Resolved status)
    ∧ pendingFetches w !! i = Some (h, job_id)
    ∧ terminal status.
Proof.
  intros Hstep Hlive Hdead.
  destruct e as [s d ti|i r|h'|i r|]; simpl in Hstep.
  - destruct (input_shown w); simplify_eq. simpl in Hdead. congruence.
  - destruct (pendingSubmits w !! i); simplify_eq.
    destruct r as [job_id|m|]; simpl in Hdead; [|congruence..].
    destruct (decide (nextHandle w = h)) as [<-|Hne].
    + by rewrite lookup_insert_eq in Hdead.
    + rewrite lookup_insert_ne in Hdead by done. congruence.
  - destruct (intervals w !! h') as [t'|] eqn:E; simplify_eq.
    unfold poll_call in Hdead. rewrite E in Hdead. simpl in Hdead. congruence.
  - destruct (pendingFetches w !! i) as [[h' j]|] eqn:E; simplify_eq.
    destruct r as [status|m|]; [|simpl in Hdead; congruence..].
    rewrite poll_then_intervals in Hdead. simpl in Hdead.
    case_decide as Hterm; [|congruence].
    destruct (decide (h' = h)) as [->|Hne].
    + by exists i, j, status.
    + rewrite lookup_delete_ne in Hdead by done. congruence.
  - destruct (download_shown w); simplify_eq. simpl in Hdead. congruence.
Qed.

Lemma timer_cleared_only_by_terminal_witness :
  ∃ i job_id status,
    FetchSettles 0
      (Resolved (Status.mk "failed" 35 None None (Some "render crashed") None))
      = FetchSettles i (Resolved status)
    ∧ pendingFetches polling_world !! i = Some (0, job_id)
    ∧ terminal status.
Proof.
  apply (timer_cleared_only_by_terminal polling_world
           (FetchSettles 0
              (Resolved (Status.mk "failed" 35 None None
                           (Some "render crashed") None)))
           (poll_then 0 "job-1"
              (Status.mk "failed" 35 None None (Some "render crashed") None)
              (with_pendingFetches [] polling_world))
           0 (mkInterval "job-1" 2000)).
  - reflexivity.
  - by vm_compute.
  - by vm_compute.
Defined.

(** X6.  When the fetch of a poll tick resolves with ['completed'], the
    tick's timer is cleared and never fires again, whatever happens later;
    the error message is left as it was. *)
Theorem poll_completed (w : World) (i h : nat) (job_id : string)
    (status : Status.t) :
  reachable w →
  pendingFetches w !! i = Some (h, job_id) →
  Status.status status = "completed" →
  ∃ w',
    step w (FetchSettles i (Resolved status)) = Some w'
    ∧ intervals w' !! h = None
    ∧ (∀ events w'', run w' events = Some w'' →
         intervals w'' !! h = None ∧ step w'' (TimerFires h) = None)
    ∧ error w' = error w.
Proof.
  intros Hreach Hout Hdone.
  rewrite (fetch_settles w i h job_id status Hout).
  eexists. split; [reflexivity|].
  assert (intervals
            (poll_then h job_id status
               (with_pendingFetches (delete i (pendingFetches w)) w)) !! h
          = None) as Hdead.
  { rewrite poll_then_intervals. rewrite decide_True by auto.
    apply lookup_delete_eq. }
  assert (h < nextHandle w) as Hlt.
  { apply reachable_handles_issued in Hreach as [_ Hall].
    by apply (Forall_lookup_1 _ _ _ _ Hall Hout). }
  split_and!.
  - exact Hdead.
  - intros events w'' Hrun.
    destruct (run_keeps_cancelled h events _ w'' Hrun) as [_ Hdead''].
    + by rewrite poll_then_nextHandle.
    + exact Hdead.
    + split; [done|]. simpl. by rewrite Hdead''.
  - rewrite poll_then_error. by rewrite decide_True.
Qed.

Lemma poll_completed_witness :
  ∃ w',
    step polling_world
         (FetchSettles 0
            (Resolved (Status.mk "completed" 100 None None None
                         (Some sample_result))))
      = Some w'
    ∧ intervals w' !! 0 = None
    ∧ step w' (TimerFires 0) = None
    ∧ error w' = "".
Proof.
  destruct (poll_completed polling_world 0 0 "job-1"
              (Status.mk "completed" 100 None None None (Some sample_result))
              polling_world_reachable eq_refl eq_refl)
    as (w' & Hstep & Hdead & Hlater & Herr).
  exists w'. split_and!; [exact Hstep | exact Hdead | | exact Herr].
  by apply (Hlater [] w').
Defined.

(** X7.  In every reachable state every live timer has the period of
    2000 ms it was created with: nothing ever changes the cadence. *)
Theorem reachable_period (w : World) (h : nat) (t : Interval) :
  reachable w → intervals w !! h = Some t → delay t = 2000%Z.
Proof.
  intros [events Hrun]. revert h t.
  assert (period_2000 initial) as Hinit.
  { intros h t Hl. simpl in Hl. by rewrite lookup_empty in Hl. }
  revert Hrun Hinit. generalize initial.
  induction events as [|e events IH]; intros w0 Hrun Hinv; simpl in Hrun.
  - by simplify_eq.
  - destruct (step w0 e) as [w1|] eqn:Hstep; [|done].
    apply (IH w1); [done|]. clear IH Hrun.
    destruct e as [s d ti|i r|h'|i r|]; simpl in Hstep.
    + destruct (input_shown w0); simplify_eq. exact Hinv.
    + destruct (pendingSubmits w0 !! i); simplify_eq.
      destruct r as [job_id|m|]; [|exact Hinv..].
      intros h t. simpl.
      destruct (decide (nextHandle w0 = h)) as [<-|Hne].
      * rewrite lookup_insert_eq. by intros [= <-].
      * rewrite lookup_insert_ne by done. apply Hinv.
    + destruct (intervals w0 !! h') as [t'|] eqn:E; simplify_eq.
      unfold poll_call. rewrite E. exact Hinv.
    + destruct (pendingFetches w0 !! i) as [[h' j]|]; simplify_eq.
      destruct r as [status|m|]; [|exact Hinv..].
      intros h t. rewrite poll_then_intervals. simpl.
      case_decide; [|apply Hinv].
      intros Hl. apply lookup_delete_Some in Hl as [_ Hl]. by apply (Hinv h t).
    + destruct (download_shown w0); simplify_eq. exact Hinv.
Qed.

Lemma reachable_period_witness :
  delay (mkInterval "job-1" 2000) = 2000%Z.
Proof.
  apply (reachable_period polling_world 0 (mkInterval "job-1" 2000)).
  - exact polling_world_reachable.
  - by vm_compute.
Defined.

(** ** Dead ends *)

(** With nothing going on and neither the input view nor the download view
    on screen, no event can happen. *)
Lemma quiescent_no_event (w : World) (e : Event) :
  quiescent w → input_shown w = false → download_shown w = false →
  step w e = None.
Proof.
  intros (Hlive & Hout & Hsub) Hin Hdown.
  destruct e as [s d t|i r|h|i r|]; simpl.
  - by rewrite Hin.
  - by rewrite Hsub.
  - by rewrite Hlive, lookup_empty.
  - by rewrite Hout.
  - by rewrite Hdown.
Qed.

(** X8.  A job that fails leaves no way out.  When the last outstanding
    fetch of the only session resolves with ['failed'] on the progress
    screen, the progress screen stays current and from then on no event can
    happen at all: the progress view is given no callback, the input and
    download views are not rendered, and no timer or call is left. *)
Theorem failed_session_stuck (w : World) (h : nat) (job_id : string)
    (status : Status.t) :
  currentScreen w = Progress →
  pendingFetches w = [(h, job_id)] →
  pendingSubmits w = [] →
  (∀ h', h' ≠ h → intervals w !! h' = None) →
  Status.status status = "failed" →
  ∃ w',
    step w (FetchSettles 0 (Resolved status)) = Some w'
    ∧ currentScreen w' = Progress
    ∧ render w' =
        [ProgressScreen
           (progress_props (record_of job_id status)
              (or_string (Status.error status) "Video generation failed"))]
    ∧ (∀ e, step w' e = None)
    ∧ (∀ events w'', run w' events = Some w'' → events = [] ∧ w'' = w').
Proof.
  intros Hscreen Hout Hsub Hothers Hfailed.
  assert (pendingFetches w !! 0 = Some (h, job_id)) as Hlook by by rewrite Hout.
  rewrite (fetch_settles w 0 h job_id status Hlook).
  eexists. split; [reflexivity|].
  set (w' := poll_then h job_id status
               (with_pendingFetches (delete 0 (pendingFetches w)) w)).
  assert (currentScreen w' = Progress) as Hscreen'.
  { subst w'. rewrite poll_then_currentScreen, Hfailed. simpl. exact Hscreen. }
  assert (∀ e, step w' e = None) as Hstuck.
  { intros e. apply quiescent_no_event.
    - split_and!.
      + apply map_eq. intros h'. subst w'.
        rewrite poll_then_intervals, lookup_empty.
        rewrite decide_True by auto. simpl.
        destruct (decide (h = h')) as [->|Hne].
        * apply lookup_delete_eq.
        * rewrite lookup_delete_ne by done. by apply Hothers.
      + subst w'. rewrite poll_then_pendingFetches. simpl. by rewrite Hout.
      + subst w'. unfold poll_then. by repeat case_decide.
    - destruct (input_shown w') eqn:E; [|done].
      apply input_shown_iff in E. congruence.
    - destruct (download_shown w') eqn:E; [|done].
      apply download_shown_iff in E as [E _]. congruence. }
  split_and!.
  - exact Hscreen'.
  - unfold render. rewrite Hscreen'. subst w'.
    rewrite poll_then_jobData, poll_then_error, Hfailed. simpl. done.
  - exact Hstuck.
  - intros events w'' Hrun. destruct events as [|e events]; simpl in Hrun.
    + by simplify_eq.
    + by rewrite Hstuck in Hrun.
Qed.

Lemma failed_session_stuck_witness :
  ∃ w',
    step polling_world
         (FetchSettles 0
            (Resolved (Status.mk "failed" 35 None None (Some "render crashed")
                         None)))
      = Some w'
    ∧ currentScreen w' = Progress
    ∧ step w' CreateNew = None
    ∧ step w' (Submit "another script" "6-9" "") = None
    ∧ step w' (TimerFires 0) = None.
Proof.
  destruct (failed_session_stuck polling_world 0 "job-1"
              (Status.mk "failed" 35 None None (Some "render crashed") None))
    as (w' & Hstep & Hscreen & _ & Hstuck & _).
  - reflexivity.
  - reflexivity.
  - reflexivity.
  - intros h' Hne.
    change (intervals polling_world)
      with ({[0 := mkInterval "job-1" 2000]} : gmap nat Interval).
    apply lookup_singleton_ne. intros Heq. apply Hne. symmetry. exact Heq.
  - reflexivity.
  - exists w'. split_and!; [exact Hstep | exact Hscreen | | |]; apply Hstuck.
Defined.

(** X9.  A ['completed'] response without a result is a dead end too: when
    the last outstanding fetch of the only session resolves that way, the
    download screen is current, nothing is rendered, and no event can happen
    any more. *)
Theorem completed_without_result_stuck (w : World) (h : nat)
    (job_id : string) (status : Status.t) :
  pendingFetches w = [(h, job_id)] →
  pendingSubmits w = [] →
  (∀ h', h' ≠ h → intervals w !! h' = None) →
  Status.status status = "completed" →
  Status.result status = None →
  ∃ w',
    step w (FetchSettles 0 (Resolved status)) = Some w'
    ∧ currentScreen w' = Download
    ∧ render w' = []
    ∧ (∀ e, step w' e = None).
Proof.
  intros Hout Hsub Hothers Hdone Hnone.
  assert (pendingFetches w !! 0 = Some (h, job_id)) as Hlook by by rewrite Hout.
  rewrite (fetch_settles w 0 h job_id status Hlook).
  eexists. split; [reflexivity|].
  set (w' := poll_then h job_id status
               (with_pendingFetches (delete 0 (pendingFetches w)) w)).
  assert (currentScreen w' = Download) as Hscreen'.
  { subst w'. rewrite poll_then_currentScreen. by rewrite decide_True. }
  assert (render w' = []) as Hblank.
  { unfold render. rewrite Hscreen'. subst w'. rewrite poll_then_jobData.
    simpl. by rewrite Hnone. }
  split_and!; [exact Hscreen' | exact Hblank |].
  intros e. apply quiescent_no_event.
  - split_and!.
    + apply map_eq. intros h'. subst w'.
      rewrite poll_then_intervals, lookup_empty.
      rewrite decide_True by auto. simpl.
      destruct (decide (h = h')) as [->|Hne].
      * apply lookup_delete_eq.
      * rewrite lookup_delete_ne by done. by apply Hothers.
    + subst w'. rewrite poll_then_pendingFetches. simpl. by rewrite Hout.
    + subst w'. unfold poll_then. by repeat case_decide.
  - unfold input_shown. by rewrite Hblank.
  - unfold download_shown. by rewrite Hblank.
Qed.

Lemma completed_without_result_stuck_witness :
  ∃ w',
    step polling_world
         (FetchSettles 0
            (Resolved (Status.mk "completed" 100 None None None None)))
      = Some w'
    ∧ render w' = []
    ∧ step w' CreateNew = None.
Proof.
  destruct (completed_without_result_stuck polling_world 0 "job-1"
              (Status.mk "completed" 100 None None None None))
    as (w' & Hstep & _ & Hblank & Hstuck).
  - reflexivity.
  - reflexivity.
  - intros h' Hne.
    change (intervals polling_world)
      with ({[0 := mkInterval "job-1" 2000]} : gmap nat Interval).
    apply lookup_singleton_ne. intros Heq. apply Hne. symmetry. exact Heq.
  - reflexivity.
  - reflexivity.
  - exists w'. split_and!; [exact Hstep | exact Hblank | apply Hstuck].
Defined.

(** ** What the backend is asked *)

Lemma durationSeconds_range (duration : string) :
  durationSeconds duration
    ∈ [Seconds 450; Seconds 660; Seconds 1140; Seconds 2100]
  ∨ ∃ key, key ∈ object_prototype_keys ∧ durationSeconds duration = Inherited key.
Proof.
  destruct (decide (duration = "6-9")) as [->|H1];
    [left; vm_compute; set_solver|].
  destruct (decide (duration = "10-12")) as [->|H2];
    [left; vm_compute; set_solver|].
  destruct (decide (duration = "18-20")) as [->|H3];
    [left; vm_compute; set_solver|].
  destruct (decide (duration = "30-40")) as [->|H4];
    [left; vm_compute; set_solver|].
  unfold durationSeconds, durationMap_get.
  rewrite durationMap_other by done.
  case_decide as Hproto.
  - right. by exists duration.
  - left. set_solver.
Qed.

Lemma poll_then_pendingSubmits h job_id status w :
  pendingSubmits (poll_then h job_id status w) = pendingSubmits w.
Proof. unfold poll_then. by repeat case_decide. Qed.

Lemma step_requests w e w' :
  step w e = Some w' →
  Forall well_formed_request (pendingSubmits w) →
  Forall well_formed_request (pendingSubmits w').
Proof.
  intros Hstep Hinv. destruct e as [s d t|i r|h|i r|]; simpl in Hstep.
  - destruct (input_shown w); simplify_eq. simpl.
    apply Forall_app. split; [done|]. apply Forall_singleton.
    split; simpl; [|apply durationSeconds_range].
    by case_decide.
  - destruct (pendingSubmits w !! i); simplify_eq.
    destruct r as [job_id|m|]; simpl; by apply Forall_delete.
  - destruct (intervals w !! h) as [t|] eqn:E; simplify_eq.
    unfold poll_call. by rewrite E.
  - destruct (pendingFetches w !! i) as [[h j]|]; simplify_eq.
    destruct r as [status|m|]; [|done..].
    by rewrite poll_then_pendingSubmits.
  - destruct (download_shown w); simplify_eq. done.
Qed.

(** X10.  Whatever the user typed, every [generateVideo] call that is
    outstanding in a reachable state was made with a title that is not empty
    (an empty one is replaced by ['Untitled Video']) and with a duration that
    is 450, 660, 1140 or 2100, or else a member of [Object.prototype]. *)
Theorem requests_well_formed (w : World) (request : SubmitRequest) :
  reachable w →
  request ∈ pendingSubmits w →
  req_title request ≠ ""
  ∧ (req_durationSeconds request
       ∈ [Seconds 450; Seconds 660; Seconds 1140; Seconds 2100]
     ∨ ∃ key, key ∈ object_prototype_keys
              ∧ req_durationSeconds request = Inherited key).
Proof.
  intros [events Hrun] Hin.
  assert (Forall well_formed_request (pendingSubmits w)) as Hall.
  { assert (Forall well_formed_request (pendingSubmits initial)) as Hinit
      by apply Forall_nil_2.
    revert Hrun Hinit. generalize initial.
    induction events as [|e events IH]; intros w0 Hrun Hinit; simpl in Hrun.
    - by simplify_eq.
    - destruct (step w0 e) as [w1|] eqn:Hstep; [|done].
      apply (IH w1); [done|]. by apply (step_requests w0 e). }
  rewrite Forall_forall in Hall. by apply Hall.
Qed.

Lemma requests_well_formed_witness :
  req_title (mkRequest "" (Seconds 2100) "Untitled Video") ≠ "".
Proof.
  refine (proj1 (requests_well_formed
                   (handleInputSubmit_call "" "2-3" "" initial)
                   (mkRequest "" (Seconds 2100) "Untitled Video") _ _)).
  - exists [Submit "" "2-3" ""]. by vm_compute.
  - apply list_elem_of_singleton. by vm_compute.
Defined.

(** X11.  Nothing stops a second submission while the first is still
    awaiting its response: the input view stays on screen.  When both calls
    resolve, two timers are live at once, one per job, and the record is the
    one of the call that resolved last. *)
Theorem double_submit_two_sessions (w : World)
    (script1 duration1 title1 script2 duration2 title2 job1 job2 : string) :
  input_shown w = true →
  ∃ w',
    run w [Submit script1 duration1 title1;
           Submit script2 duration2 title2;
           SubmitSettles (length (pendingSubmits w)) (Resolved job1);
           SubmitSettles (length (pendingSubmits w)) (Resolved job2)]
      = Some w'
    ∧ intervals w' !! nextHandle w = Some (mkInterval job1 2000)
    ∧ intervals w' !! S (nextHandle w) = Some (mkInterval job2 2000)
    ∧ jobData w' =
        Some (JobData.mk job2 "queued" 0 (Some "Starting...") None None None)
    ∧ currentScreen w' = Progress.
Proof.
  intros Hin. pose proof Hin as Hscreen. apply input_shown_iff in Hscreen.
  cbn [run]. cbn [step]. rewrite Hin.
  assert (input_shown (handleInputSubmit_call script1 duration1 title1 w)
          = true) as Hin1 by by apply input_shown_iff.
  rewrite Hin1.
  set (r1 := mkRequest script1 (durationSeconds duration1)
               (or_string (Some title1) "Untitled Video")).
  set (r2 := mkRequest script2 (durationSeconds duration2)
               (or_string (Some title2) "Untitled Video")).
  assert (pendingSubmits
            (handleInputSubmit_call script2 duration2 title2
               (handleInputSubmit_call script1 duration1 title1 w))
          = pendingSubmits w ++ r1 :: [r2]) as Hpend.
  { simpl. by rewrite <- app_assoc. }
  rewrite Hpend.
  rewrite (list_lookup_middle (pendingSubmits w) [r2] r1) by done.
  rewrite delete_middle. cbn [step pendingSubmits with_pendingSubmits
    handleInputSubmit_then setInterval setCurrentScreen setJobData].
  rewrite lookup_last_app.
  eexists. split; [reflexivity|]. simpl.
  split_and!; try done.
  - rewrite lookup_insert_ne by lia. apply lookup_insert_eq.
  - apply lookup_insert_eq.
Qed.

Lemma double_submit_two_sessions_witness :
  ∃ w',
    run initial [Submit "a script" "6-9" "One";
                 Submit "a script" "6-9" "One";
                 SubmitSettles 0 (Resolved "job-1");
                 SubmitSettles 0 (Resolved "job-2")]
      = Some w'
    ∧ intervals w' !! 0 = Some (mkInterval "job-1" 2000)
    ∧ intervals w' !! 1 = Some (mkInterval "job-2" 2000).
Proof.
  destruct (double_submit_two_sessions initial "a script" "6-9" "One"
              "a script" "6-9" "One" "job-1" "job-2" eq_refl)
    as (w' & Hrun & Hfirst & Hsecond & _).
  exists w'. split_and!; [exact Hrun | exact Hfirst | exact Hsecond].
Defined.

(** ** Starting over *)

(** X12.  "Create new" can be pressed only where the download view is
    rendered, that is with the download screen current and a record that
    carries a result; it then runs [handleCreateNew], after which the input
    view is back and any submission is accepted. *)
Theorem reset_only_from_download_view (w w1 : World) :
  step w CreateNew = Some w1 →
  currentScreen w = Download
  ∧ (∃ j r, jobData w = Some j ∧ JobData.result j = Some r)
  ∧ w1 = handleCreateNew w
  ∧ render w1 = [InputScreen]
  ∧ ∀ script duration title,
      step w1 (Submit script duration title)
        = Some (handleInputSubmit_call script duration title w1).
Proof.
  intros Hstep. simpl in Hstep.
  destruct (download_shown w) eqn:Hd; [|done].
  apply download_shown_iff in Hd as [Hscreen Hresult].
  injection Hstep as <-. split_and!; done.
Qed.

Lemma reset_only_from_download_view_witness :
  render (handleCreateNew completed_world) = [InputScreen]
  ∧ step (handleCreateNew completed_world) (Submit "next script" "18-20" "")
      = Some (handleInputSubmit_call "next script" "18-20" ""
                (handleCreateNew completed_world)).
Proof.
  destruct (reset_only_from_download_view completed_world
              (handleCreateNew completed_world) eq_refl)
    as (_ & _ & _ & Hrender & Hsubmit).
  split; [exact Hrender | apply Hsubmit].
Defined.

(** ** Witnesses for the duration table and the late response *)

Lemma durationSeconds_table_witness :
  durationSeconds "anything-else" = Seconds 2100.
Proof.
  destruct durationSeconds_table as (_ & _ & _ & _ & Hother).
  apply Hother; [discriminate | discriminate | discriminate | discriminate |].
  apply (bool_decide_unpack _). by vm_compute.
Defined.

Lemma submit_settles_resolved_witness :
  ∃ w',
    step (setError "left over"
            (handleInputSubmit_call "a script" "6-9" "My video" initial))
         (SubmitSettles 0 (Resolved "job-1")) = Some w'
    ∧ error w' = "left over"
    ∧ currentScreen w' = Progress.
Proof.
  destruct (submit_settles_resolved
              (setError "left over"
                 (handleInputSubmit_call "a script" "6-9" "My video" initial))
              0
              (mkRequest "a script" (Seconds 450) "My video")
              "job-1")
    as (w' & Hstep & _ & Herr & Hscreen & _).
  - by vm_compute.
  - exists w'. split_and!; [exact Hstep | exact Herr | exact Hscreen].
Defined.

(** ** The record's job id *)







